(** * AudioInputProvider: device list and selection synchronizer

    A shallow embedding of
    [src/providers/DevicesProvider/AudioInputProvider.tsx]:

    - [Accessor.useAudioInputs], the hook that reads the provider's context
      value (lines 119-140), over a store of JavaScript arrays so that the
      identity of the provider's array is visible;
    - [Provider.audioInputsChanged], the reconciliation observer
      (lines 79-100), as a script of awaited calls;
    - [Provider.step], the component as a transition system on its hooks
      state: the three effects, their cleanups, the continuation of
      [initAudioInput] after its [await], and the delivery of
      device-change events by the media engine. *)

From Stdlib Require Import List Bool Arith Lia.
From stdpp Require Import base option list strings gmap.
Import ListNotations.

Local Open Scope string_scope.
Local Open Scope list_scope.

(** ** The read-model accessor *)

Module Accessor.

(** Modelled from the spec: the [DeviceConfig] type of [src/types] is not
    among the sources; the hook reads one optional boolean property of it. *)
Record DeviceConfig : Type := { additionalDevices : option bool }.

(** The value thrown by [throw new Error(msg)]. *)
Record Error : Type := { message : string }.

(** Truthiness of an optional boolean property ([undefined] and [false]
    are falsy). *)
Definition truthy (b : option bool) : bool :=
  match b with
  | Some true => true
  | _ => false
  end.

(** Line 120: [props && props.additionalDevices], as a condition. *)
Definition needAdditionalIO (props : option DeviceConfig) : bool :=
  match props with
  | Some props => truthy (additionalDevices props)
  | None => false
  end.

Section Store.

(** The elements of the device arrays ([DeviceType] of [src/types]); the
    hook never looks inside them. *)
Context {DeviceType : Type}.

(** Arrays are objects: a value of type [DeviceType[]] is a reference into
    the store. *)
Definition ref : Type := nat.

(** Modelled from the spec: [DeviceTypeContext] of [src/types], the pair
    the provider publishes (lines 109-112). *)
Record DeviceTypeContext : Type :=
  { devices : ref; selectedDevice : option string }.

(** What [getFormattedDropdownDeviceOptions(AUDIO_INPUT)] evaluates to:
    neither the helper nor the constant is among the sources. The hook
    tests the result against [null] and reads its elements. *)
Variable additionalAudioInputs : option (list DeviceType).

(** The elements of the array behind a reference. *)
Definition elements (h : gmap nat (list DeviceType)) (r : ref) : list DeviceType :=
  default [] (h !! r).

(** [[...xs, ...ys]]: a new array, allocated at an unused reference. *)
Definition spread (xs ys : list DeviceType) (h : gmap nat (list DeviceType))
  : ref * gmap nat (list DeviceType) :=
  let r : ref := fresh (dom h) in
  (r, <[r := xs ++ ys]> h).

(** Lines 119-140. [context] is the result of [useContext(Context)]. *)
Definition useAudioInputs (props : option DeviceConfig)
    (context : option DeviceTypeContext) (h : gmap nat (list DeviceType))
  : (Error + DeviceTypeContext) * gmap nat (list DeviceType) :=
  match context with
  | None =>
      (inl {| message := "useAudioInputs must be used within AudioInputProvider" |}, h)
  | Some context =>
      let devices0 := devices context in
      let selectedDevice0 := selectedDevice context in
      if needAdditionalIO props then
        match additionalAudioInputs with
        | Some extra =>
            let '(devices1, h1) := spread (elements h devices0) extra h in
            (inr {| devices := devices1; selectedDevice := selectedDevice0 |}, h1)
        | None =>
            (inr {| devices := devices0; selectedDevice := selectedDevice0 |}, h)
        end
      else
        (inr {| devices := devices0; selectedDevice := selectedDevice0 |}, h)
  end.

(** The statically configured devices the hook has to append: none when
    the formatted list is [null]. *)
Definition configured : list DeviceType :=
  default [] additionalAudioInputs.

End Store.

End Accessor.

(** ** The provider component *)

Module Provider.

(** [MediaDeviceInfo] of the DOM. *)
Inductive MediaDeviceKind : Type := audioinput | audiooutput | videoinput.

Record MediaDeviceInfo : Type :=
  { deviceId : string; groupId : string; kind : MediaDeviceKind; label : string }.

(** Modelled from the spec: the two accessors of the session manager the
    reconciliation reads, its current selected device and that device's
    label. The [MeetingManager] class is not among the sources; either
    property may hold no string. *)
Record MeetingManager : Type :=
  { mm_selectedAudioInputDevice : option string;
    mm_selectedAudioInputDeviceLabel : option string }.

(** The identity of a media engine handle, the non-null values of
    [useAudioVideo()]. *)
Definition AudioVideo : Type := nat.

(** The two observer objects the component builds: the one of the
    initialization effect (line 45), by effect instance, and the one of the
    reconciliation effect (line 78). *)
Inductive Observer : Type :=
| ListObserver (k : nat)
| ReconcileObserver (j : nat).

(** Calls that leave the component. *)
Inductive Call : Type :=
| subscribeToSelectedAudioInputDevice
| unsubscribeFromSelectedAudioInputDevice
| listAudioInputDevices (audioVideo : AudioVideo)
| addDeviceChangeObserver (audioVideo : AudioVideo) (observer : Observer)
| removeDeviceChangeObserver (audioVideo : AudioVideo) (observer : Observer)
| chooseAudioInputDevice (audioVideo : AudioVideo) (device : option string)
| selectAudioInputDevice (device : string)
| console_log (msg : string).

(** The reconciliation side effects: deselect, reselect, select none. *)
Definition is_reconciliation (c : Call) : bool :=
  match c with
  | chooseAudioInputDevice _ _ | selectAudioInputDevice _ => true
  | _ => false
  end.

Definition reconciliation (cs : list Call) : list Call :=
  filter (fun c => is_reconciliation c = true) cs.

(** *** Async functions

    The body of an [async] function between two [await]s runs to
    completion; an awaited promise that rejects ends the function there. *)
Inductive Settlement : Type := Fulfilled | Rejected.

Inductive Async : Type :=
| Done
| Do (c : Call) (k : Async)
| Await (c : Call) (k : Async).

(** The calls a script makes when the promises of its awaited calls settle
    as [settle] says. *)
Fixpoint performed (settle : Call -> Settlement) (p : Async) : list Call :=
  match p with
  | Done => []
  | Do c k => c :: performed settle k
  | Await c k =>
      match settle c with
      | Fulfilled => c :: performed settle k
      | Rejected => [c]
      end
  end.

(** *** The reconciliation observer, lines 79-100

    [initialized] is [initialized.current] when the event arrives;
    [audioVideo] and [selectedAudioInputDevice] are the values the effect
    closed over; [meetingManager] is what the session manager reports when
    the event arrives. *)
Definition existingDevice (selectedAudioInputDevice : option string)
    (newAudioInputs : list MediaDeviceInfo) : option MediaDeviceInfo :=
  List.find
    (fun device => bool_decide (Some (deviceId device) = selectedAudioInputDevice))
    newAudioInputs.

Definition outdatedDevice (meetingManager : MeetingManager)
    (existing : MediaDeviceInfo) : bool :=
  bool_decide (Some (label existing) ≠ mm_selectedAudioInputDeviceLabel meetingManager)
  || bool_decide (Some (deviceId existing) ≠ mm_selectedAudioInputDevice meetingManager).

Definition stale_msg : string :=
  "Stale audio input device found. Dropping and selecting audio input".

Definition audioInputsChanged (initialized : bool) (audioVideo : AudioVideo)
    (selectedAudioInputDevice : option string) (meetingManager : MeetingManager)
    (newAudioInputs : list MediaDeviceInfo) : Async :=
  if negb initialized then Done
  else
    match existingDevice selectedAudioInputDevice newAudioInputs with
    | Some existing =>
        if outdatedDevice meetingManager existing then
          Do (console_log stale_msg)
            (Await (chooseAudioInputDevice audioVideo None)
               (Await (selectAudioInputDevice (deviceId existing)) Done))
        else Done
    | None => Await (selectAudioInputDevice "none") Done
    end.

(** *** Hooks state *)

(** One run of the initialization effect (lines 42-71): its [isMounted]
    variable, the handle it closed over, whether [initAudioInput] is
    suspended at its [await], and whether its observer is on the engine. *)
Record InitEffect : Type :=
  { isMounted : bool;
    init_audioVideo : option AudioVideo;
    awaiting : bool;
    observing : bool }.

(** One run of the reconciliation effect (lines 73-106) that got past its
    guard: the handle and the selection it closed over, and whether its
    observer is on the engine. *)
Record ReconcileEffect : Type :=
  { rec_audioVideo : AudioVideo;
    rec_selected : option string;
    registered : bool }.

Record State : Type :=
  { audioInputs : list MediaDeviceInfo;
    selectedAudioInputDevice : option string;
    initialized : bool;
    initEffects : list InitEffect;
    reconcileEffects : list ReconcileEffect;
    calls : list Call }.

(** First render: lines 25-29. *)
Definition mount (meetingManager : MeetingManager) : State :=
  {| audioInputs := [];
     selectedAudioInputDevice := mm_selectedAudioInputDevice meetingManager;
     initialized := false;
     initEffects := [];
     reconcileEffects := [];
     calls := [] |}.

Definition log (cs : list Call) (st : State) : State :=
  {| audioInputs := audioInputs st;
     selectedAudioInputDevice := selectedAudioInputDevice st;
     initialized := initialized st;
     initEffects := initEffects st;
     reconcileEffects := reconcileEffects st;
     calls := calls st ++ cs |}.

Definition setAudioInputs (devices : list MediaDeviceInfo) (st : State) : State :=
  {| audioInputs := devices;
     selectedAudioInputDevice := selectedAudioInputDevice st;
     initialized := initialized st;
     initEffects := initEffects st;
     reconcileEffects := reconcileEffects st;
     calls := calls st |}.

Definition setSelectedAudioInputDevice (d : option string) (st : State) : State :=
  {| audioInputs := audioInputs st;
     selectedAudioInputDevice := d;
     initialized := initialized st;
     initEffects := initEffects st;
     reconcileEffects := reconcileEffects st;
     calls := calls st |}.

Definition set_initialized (b : bool) (st : State) : State :=
  {| audioInputs := audioInputs st;
     selectedAudioInputDevice := selectedAudioInputDevice st;
     initialized := b;
     initEffects := initEffects st;
     reconcileEffects := reconcileEffects st;
     calls := calls st |}.

Definition with_initEffects (es : list InitEffect) (st : State) : State :=
  {| audioInputs := audioInputs st;
     selectedAudioInputDevice := selectedAudioInputDevice st;
     initialized := initialized st;
     initEffects := es;
     reconcileEffects := reconcileEffects st;
     calls := calls st |}.

Definition with_reconcileEffects (es : list ReconcileEffect) (st : State) : State :=
  {| audioInputs := audioInputs st;
     selectedAudioInputDevice := selectedAudioInputDevice st;
     initialized := initialized st;
     initEffects := initEffects st;
     reconcileEffects := es;
     calls := calls st |}.

(** *** The selection effect, lines 31-40 *)

Definition selection_effect (st : State) : State :=
  log [subscribeToSelectedAudioInputDevice] st.

Definition selection_cleanup (st : State) : State :=
  log [unsubscribeFromSelectedAudioInputDevice] st.

(** The callback of line 32. *)
Definition callback (updatedAudioInputDevice : option string) (st : State) : State :=
  setSelectedAudioInputDevice updatedAudioInputDevice st.

(** *** The initialization effect, lines 42-71

    The effect body: a new [isMounted], then [initAudioInput()] up to its
    [await] (lines 52-56). The new instance is the last of [initEffects]. *)
Definition init_effect (audioVideo : option AudioVideo) (st : State) : State :=
  match audioVideo with
  | None =>
      with_initEffects
        (initEffects st ++
           [{| isMounted := true; init_audioVideo := None;
               awaiting := false; observing := false |}]) st
  | Some av =>
      log [listAudioInputDevices av]
        (with_initEffects
           (initEffects st ++
              [{| isMounted := true; init_audioVideo := Some av;
                  awaiting := true; observing := false |}]) st)
  end.

Definition settled (e : InitEffect) : InitEffect :=
  {| isMounted := isMounted e; init_audioVideo := init_audioVideo e;
     awaiting := false; observing := observing e |}.

Definition observed (e : InitEffect) : InitEffect :=
  {| isMounted := isMounted e; init_audioVideo := init_audioVideo e;
     awaiting := awaiting e; observing := true |}.

Definition unmounted (e : InitEffect) : InitEffect :=
  {| isMounted := false; init_audioVideo := init_audioVideo e;
     awaiting := awaiting e; observing := false |}.

(** [initAudioInput] of instance [k] resumes with the fetched [devices]
    (lines 58-62). A promise settles once: without a suspended call there
    is nothing to resume. *)
Definition initAudioInput_resume (k : nat) (devices : list MediaDeviceInfo)
    (st : State) : State :=
  match initEffects st !! k with
  | Some e =>
      match awaiting e, init_audioVideo e with
      | true, Some av =>
          if isMounted e then
            set_initialized true
              (log [addDeviceChangeObserver av (ListObserver k)]
                 (setAudioInputs devices
                    (with_initEffects
                       (<[k := observed (settled e)]> (initEffects st)) st)))
          else
            with_initEffects (<[k := settled e]> (initEffects st)) st
      | _, _ => st
      end
  | None => st
  end.

(** The awaited promise rejects: [initAudioInput] ends at line 56. *)
Definition initAudioInput_rejected (k : nat) (st : State) : State :=
  match initEffects st !! k with
  | Some e => with_initEffects (<[k := settled e]> (initEffects st)) st
  | None => st
  end.

(** The cleanup of instance [k], lines 67-70. *)
Definition init_cleanup (k : nat) (st : State) : State :=
  match initEffects st !! k with
  | Some e =>
      let st' := with_initEffects (<[k := unmounted e]> (initEffects st)) st in
      match init_audioVideo e with
      | Some av => log [removeDeviceChangeObserver av (ListObserver k)] st'
      | None => st'
      end
  | None => st
  end.

(** *** The reconciliation effect, lines 73-106 *)

Definition reconcile_effect (audioVideo : option AudioVideo) (st : State) : State :=
  match audioVideo with
  | None => st
  | Some av =>
      log [addDeviceChangeObserver av (ReconcileObserver (length (reconcileEffects st)))]
        (with_reconcileEffects
           (reconcileEffects st ++
              [{| rec_audioVideo := av;
                  rec_selected := selectedAudioInputDevice st;
                  registered := true |}]) st)
  end.

Definition unregistered (r : ReconcileEffect) : ReconcileEffect :=
  {| rec_audioVideo := rec_audioVideo r; rec_selected := rec_selected r;
     registered := false |}.

Definition reconcile_cleanup (j : nat) (st : State) : State :=
  match reconcileEffects st !! j with
  | Some r =>
      log [removeDeviceChangeObserver (rec_audioVideo r) (ReconcileObserver j)]
        (with_reconcileEffects (<[j := unregistered r]> (reconcileEffects st)) st)
  | None => st
  end.

(** *** Device-change events

    The engine [av] hands [newAudioInputs] to the observers it holds. *)
Definition list_observer_on (av : AudioVideo) (e : InitEffect) : bool :=
  observing e && bool_decide (init_audioVideo e = Some av).

Definition reconciler_on (av : AudioVideo) (r : ReconcileEffect) : bool :=
  registered r && bool_decide (rec_audioVideo r = av).

(** The reconciliation observers on [av], in the order they were added. *)
Definition reconcilers (av : AudioVideo) (st : State) : list ReconcileEffect :=
  List.filter (reconciler_on av) (reconcileEffects st).

(** What one reconciliation observer does with the event. The observer
    reads the ref, its closure and the session manager before its first
    [await], so its calls are recorded together. *)
Definition reconcile (st : State) (meetingManager : MeetingManager)
    (settle : Call -> Settlement) (newAudioInputs : list MediaDeviceInfo)
    (r : ReconcileEffect) : list Call :=
  performed settle
    (audioInputsChanged (initialized st) (rec_audioVideo r) (rec_selected r)
       meetingManager newAudioInputs).

Definition device_change (av : AudioVideo) (newAudioInputs : list MediaDeviceInfo)
    (meetingManager : MeetingManager) (settle : Call -> Settlement)
    (st : State) : State :=
  let st' :=
    if existsb (list_observer_on av) (initEffects st)
    then setAudioInputs newAudioInputs st   (* line 47 *)
    else st in
  log (flat_map (reconcile st meetingManager settle newAudioInputs)
         (reconcilers av st)) st'.

(** *** The component as a transition system *)

Inductive Event : Type :=
| SelectionEffect
| SelectionCleanup
| SelectionChanged (updatedAudioInputDevice : option string)
| InitEffectRun (audioVideo : option AudioVideo)
| InitCleanup (k : nat)
| FetchFulfilled (k : nat) (devices : list MediaDeviceInfo)
| FetchRejected (k : nat)
| ReconcileEffectRun (audioVideo : option AudioVideo)
| ReconcileCleanup (j : nat)
| DeviceChange (av : AudioVideo) (newAudioInputs : list MediaDeviceInfo)
    (meetingManager : MeetingManager) (settle : Call -> Settlement).

Definition step (st : State) (ev : Event) : State :=
  match ev with
  | SelectionEffect => selection_effect st
  | SelectionCleanup => selection_cleanup st
  | SelectionChanged d => callback d st
  | InitEffectRun audioVideo => init_effect audioVideo st
  | InitCleanup k => init_cleanup k st
  | FetchFulfilled k devices => initAudioInput_resume k devices st
  | FetchRejected k => initAudioInput_rejected k st
  | ReconcileEffectRun audioVideo => reconcile_effect audioVideo st
  | ReconcileCleanup j => reconcile_cleanup j st
  | DeviceChange av newAudioInputs mm settle =>
      device_change av newAudioInputs mm settle st
  end.

Definition run (st : State) (evs : list Event) : State :=
  fold_left step evs st.

(** Events that are not the fulfilment of the enumeration fetch. *)
Definition is_fetch_fulfilled (ev : Event) : bool :=
  match ev with
  | FetchFulfilled _ _ => true
  | _ => false
  end.

(** The values of the cached selection that name no device: [null] and the
    sentinel. *)
Definition nothing_selected (d : option string) : Prop :=
  d = None \/ d = Some "none".

(** Instance [k] of the initialization effect has had its cleanup run:
    its [isMounted] is [false]. *)
Definition torn_down (k : nat) (st : State) : Prop :=
  exists e, initEffects st !! k = Some e /\ isMounted e = false.

(** A device-change event of the engine [av] whose list has no device
    with the sentinel's id, should one of the observers [rs] have the
    sentinel as its cached selection. *)
Definition sentinel_free (l : list MediaDeviceInfo) : Prop :=
  forall d, In d l -> deviceId d <> "none".

Definition plain_change (av : AudioVideo) (rs : list ReconcileEffect)
    (ev : Event) : Prop :=
  match ev with
  | DeviceChange av' l _ _ =>
      av' = av
      /\ forall r, In r rs -> rec_selected r = Some "none" -> sentinel_free l
  | _ => False
  end.

(** *** Notions used by the further properties *)

(** The calls the reconciliation observer of a closure over [av] and
    [sel] is able to make. *)
Definition observer_call (av : AudioVideo) (sel : option string) (c : Call) : Prop :=
  c = console_log stale_msg
  \/ c = chooseAudioInputDevice av None
  \/ c = selectAudioInputDevice "none"
  \/ exists s, sel = Some s /\ c = selectAudioInputDevice s.

(** The enumeration requests among the calls, and the events that make
    one: a run of the initialization effect with a handle. *)
Definition is_fetch (c : Call) : bool :=
  match c with
  | listAudioInputDevices _ => true
  | _ => false
  end.

Definition starts_fetch (ev : Event) : bool :=
  match ev with
  | InitEffectRun (Some _) => true
  | _ => false
  end.

(** The selections the session manager notified, oldest first. *)
Definition notified (evs : list Event) : list (option string) :=
  flat_map (fun ev => match ev with
                      | SelectionChanged d => [d]
                      | _ => []
                      end) evs.

(** An instance whose list observer is on the engine is mounted, has had
    its fetch answered on a handle, and has set the initialized flag. *)
Definition observer_sound (st : State) (e : InitEffect) : Prop :=
  observing e = true ->
  isMounted e = true /\ awaiting e = false
  /\ is_Some (init_audioVideo e) /\ initialized st = true.

(** No [initAudioInput] is suspended at its [await]. *)
Definition no_fetch_pending (st : State) : Prop :=
  Forall (fun e => awaiting e = false) (initEffects st).

Definition all_observers_sound (st : State) : Prop :=
  Forall (observer_sound st) (initEffects st).

(** The enumeration requests a sequence of events gives rise to: one per
    run of the initialization effect with a handle, on that handle. *)
Definition requested (evs : list Event) : list Call :=
  flat_map (fun ev => match ev with
                      | InitEffectRun (Some av) => [listAudioInputDevices av]
                      | _ => []
                      end) evs.

End Provider.

(** ** Sample values

    The devices and reports of the spec's examples. *)

Module Samples.

Import Provider.

Definition mic (id lbl : string) : MediaDeviceInfo :=
  {| deviceId := id; groupId := "built-in"; kind := audioinput; label := lbl |}.

Definition reports (id lbl : string) : MeetingManager :=
  {| mm_selectedAudioInputDevice := Some id;
     mm_selectedAudioInputDeviceLabel := Some lbl |}.

(** Every awaited promise fulfils. *)
Definition fulfils : Call -> Settlement := fun _ => Fulfilled.

(** A component on engine [7] after both of its engine effects ran, the
    fetch still unanswered. *)
Definition starting : State :=
  run (mount (reports "a" "Mic A"))
    [SelectionEffect; InitEffectRun (Some 7); ReconcileEffectRun (Some 7)].

(** The same component once the fetch is answered. *)
Definition started : State :=
  step starting (FetchFulfilled 0 [mic "a" "Mic A"]).

(** A component with nothing selected, initialized. *)
Definition idle : State :=
  run (mount {| mm_selectedAudioInputDevice := None;
                mm_selectedAudioInputDeviceLabel := None |})
    [SelectionEffect; InitEffectRun (Some 7); ReconcileEffectRun (Some 7);
     FetchFulfilled 0 [mic "a" "Mic A"]].

(** A store with the provider's array, of device ids only, at [0]. *)
Definition shelf : gmap nat (list string) := {[ 0 := ["a"; "b"] ]}.

Definition published : Accessor.DeviceTypeContext :=
  {| Accessor.devices := 0; Accessor.selectedDevice := Some "a" |}.

Definition flagged : option Accessor.DeviceConfig :=
  Some {| Accessor.additionalDevices := Some true |}.

End Samples.

(** * Properties of the accessor *)

Section AccessorFacts.

Import Accessor.

Context {DeviceType : Type}.
Variable additionalAudioInputs : option (list DeviceType).

Local Abbreviation heap := (gmap nat (list DeviceType)).

Lemma spread_fresh (xs ys : list DeviceType) (h : heap) :
  h !! (spread xs ys h).1 = None.
Proof.
  unfold spread; simpl.
  apply not_elem_of_dom, is_fresh.
Qed.

Lemma spread_elements (xs ys : list DeviceType) (h : heap) :
  elements (spread xs ys h).2 (spread xs ys h).1 = xs ++ ys.
Proof.
  unfold spread, elements; simpl.
  by rewrite lookup_insert_eq.
Qed.

Lemma spread_frame (xs ys : list DeviceType) (h : heap) (r : ref) (zs : list DeviceType) :
  h !! r = Some zs -> (spread xs ys h).2 !! r = Some zs.
Proof.
  intros Hr. unfold spread; simpl.
  rewrite lookup_insert_ne; [done|].
  intros <-. pose proof (spread_fresh xs ys h) as Hf.
  unfold spread in Hf; simpl in Hf. congruence.
Qed.

Lemma useAudioInputs_frame (props : option DeviceConfig)
    (context : option DeviceTypeContext) (h : heap) (r : ref)
    (zs : list DeviceType) :
  h !! r = Some zs ->
  (useAudioInputs additionalAudioInputs props context h).2 !! r = Some zs.
Proof.
  intros Hr. unfold useAudioInputs.
  destruct context as [c|]; [|done].
  destruct (needAdditionalIO props); [|done].
  destruct additionalAudioInputs as [extra|]; [|done].
  destruct (spread (elements h (devices c)) extra h) as [r1 h1] eqn:E.
  simpl. change h1 with (r1, h1).2. rewrite <- E. by apply spread_frame.
Qed.

(** C6: with the [additionalDevices] flag set, the list the hook returns
    is the provider's list, in its order, followed by the statically
    configured devices: its first [length hardware] elements are the
    hardware devices and the rest are the configured ones. *)
Theorem useAudioInputs_appends_after (context : DeviceTypeContext) (h : heap) :
  exists (result : DeviceTypeContext) (h' : heap),
    useAudioInputs additionalAudioInputs
      (Some {| additionalDevices := Some true |}) (Some context) h
    = (inr result, h')
    /\ elements h' (devices result)
       = elements h (devices context) ++ configured additionalAudioInputs
    /\ take (length (elements h (devices context))) (elements h' (devices result))
       = elements h (devices context)
    /\ drop (length (elements h (devices context))) (elements h' (devices result))
       = configured additionalAudioInputs.
Proof.
  assert (Hsplit : forall (xs ys zs : list DeviceType),
             zs = xs ++ ys ->
             zs = xs ++ ys /\ take (length xs) zs = xs /\ drop (length xs) zs = ys).
  { intros xs ys zs ->. split; [done|].
    split; [by rewrite take_app_length | by rewrite drop_app_length]. }
  unfold useAudioInputs, configured.
  cbn [needAdditionalIO additionalDevices truthy].
  destruct additionalAudioInputs as [extra|]; cbn [default].
  - destruct (spread (elements h (devices context)) extra h) as [r1 h1] eqn:E.
    exists {| devices := r1; selectedDevice := selectedDevice context |}, h1.
    split; [reflexivity|]. cbn [devices]. apply Hsplit.
    replace r1 with (spread (elements h (devices context)) extra h).1 by (by rewrite E).
    replace h1 with (spread (elements h (devices context)) extra h).2 by (by rewrite E).
    apply spread_elements.
  - exists {| devices := devices context; selectedDevice := selectedDevice context |}, h.
    split; [reflexivity|]. cbn [devices]. apply Hsplit. by rewrite app_nil_r.
Qed.

(** C7: without a context value the hook throws, whatever its argument,
    and returns nothing; with a context value it returns a result and
    never throws. *)
Theorem useAudioInputs_requires_provider (props : option DeviceConfig) (h : heap) :
  useAudioInputs additionalAudioInputs props None h
  = (inl {| message := "useAudioInputs must be used within AudioInputProvider" |}, h)
  /\ forall context : DeviceTypeContext,
       exists (result : DeviceTypeContext) (h' : heap),
         useAudioInputs additionalAudioInputs props (Some context) h
         = (inr result, h').
Proof.
  split; [reflexivity|].
  intros context. unfold useAudioInputs.
  destruct (needAdditionalIO props); [|by eauto].
  destruct additionalAudioInputs as [extra|]; [|by eauto].
  destruct (spread (elements h (devices context)) extra h) as [r1 h1]. by eauto.
Qed.

(** C9: the hook only reads. Every array of the store, the provider's
    among them, has the same elements after the call; the selection it
    returns is the provider's cached one, with or without the flag; and
    when the flag is unset or the configured list is [null], it returns
    the provider's array itself and the store as it was. *)
Theorem useAudioInputs_pure_read (props : option DeviceConfig)
    (context : DeviceTypeContext) (h : heap) :
  (forall (r : ref) (zs : list DeviceType),
      h !! r = Some zs ->
      (useAudioInputs additionalAudioInputs props (Some context) h).2 !! r = Some zs)
  /\ (exists result : DeviceTypeContext,
        (useAudioInputs additionalAudioInputs props (Some context) h).1 = inr result
        /\ selectedDevice result = selectedDevice context)
  /\ (needAdditionalIO props = false \/ additionalAudioInputs = None ->
      useAudioInputs additionalAudioInputs props (Some context) h
      = (inr {| devices := devices context;
                selectedDevice := selectedDevice context |}, h)).
Proof.
  split; [intros r zs; apply useAudioInputs_frame|].
  split.
  - unfold useAudioInputs.
    destruct (needAdditionalIO props); [|by eauto].
    destruct additionalAudioInputs as [extra|]; [|by eauto].
    destruct (spread (elements h (devices context)) extra h) as [r1 h1]. by eauto.
  - intros [Hflag | Hnull]; unfold useAudioInputs.
    + by rewrite Hflag.
    + rewrite Hnull. by destruct (needAdditionalIO props).
Qed.

(** ** Further properties of the accessor *)

Lemma useAudioInputs_result (props : option DeviceConfig)
    (context : DeviceTypeContext) (h : heap) :
  exists (result : DeviceTypeContext) (h' : heap),
    useAudioInputs additionalAudioInputs props (Some context) h = (inr result, h')
    /\ selectedDevice result = selectedDevice context
    /\ elements h' (devices result)
       = elements h (devices context)
         ++ (if needAdditionalIO props then configured additionalAudioInputs
             else [])
    /\ (is_Some (h !! devices context) -> is_Some (h' !! devices result)).
Proof.
  unfold useAudioInputs, configured.
  destruct (needAdditionalIO props).
  - destruct additionalAudioInputs as [extra|]; cbn [default].
    + destruct (spread (elements h (devices context)) extra h) as [r1 h1] eqn:E.
      exists {| devices := r1; selectedDevice := selectedDevice context |}, h1.
      split; [done|]. split; [done|]. cbn [devices].
      replace r1 with (spread (elements h (devices context)) extra h).1
        by (by rewrite E).
      replace h1 with (spread (elements h (devices context)) extra h).2
        by (by rewrite E).
      split; [apply spread_elements|].
      intros _. unfold spread; simpl. rewrite lookup_insert_eq. by eauto.
    + exists {| devices := devices context;
                selectedDevice := selectedDevice context |}, h.
      split; [done|]. split; [done|]. cbn [devices].
      by rewrite app_nil_r.
  - exists {| devices := devices context;
              selectedDevice := selectedDevice context |}, h.
    split; [done|]. split; [done|]. cbn [devices]. by rewrite app_nil_r.
Qed.

Lemma elements_frame (h h' : heap) (r : ref) :
  (forall zs, h !! r = Some zs -> h' !! r = Some zs) ->
  is_Some (h !! r) -> elements h' r = elements h r.
Proof.
  intros Hframe [zs Hr]. unfold elements. by rewrite (Hframe zs Hr), Hr.
Qed.

(** X12: with the flag set and a formatted list that is not [null], the
    hook returns a new array, one that was not in the store - so never the
    provider's own - even when there is nothing to append; the store after
    the call is the store before it with that one array added. *)
Theorem flagged_read_returns_new_array (props : option DeviceConfig)
    (context : DeviceTypeContext) (h : heap) (extra : list DeviceType) :
  needAdditionalIO props = true ->
  exists (result : DeviceTypeContext),
    useAudioInputs (Some extra) props (Some context) h
    = (inr result,
       <[devices result := elements h (devices context) ++ extra]> h)
    /\ h !! devices result = None
    /\ (is_Some (h !! devices context) -> devices result <> devices context).
Proof.
  intros Hflag. unfold useAudioInputs. rewrite Hflag.
  pose proof (spread_fresh (elements h (devices context)) extra h) as Hfresh.
  unfold spread in *. simpl in *.
  exists {| devices := fresh (dom h); selectedDevice := selectedDevice context |}.
  split; [reflexivity|]. simpl. split; [done|].
  intros [zs Hzs] E. rewrite E in Hfresh. congruence.
Qed.

(** X13: reads do not interfere. When the provider's array is in the
    store, a second call of the hook, after a first one with any
    argument, returns the provider's elements followed by the configured
    ones if its own flag is set, never the extras twice, and the array
    the first call returned still has the elements it had. *)
Theorem successive_reads_agree (props props' : option DeviceConfig)
    (context : DeviceTypeContext) (h : heap) :
  is_Some (h !! devices context) ->
  exists (first second : DeviceTypeContext) (h1 h2 : heap),
    useAudioInputs additionalAudioInputs props (Some context) h
    = (inr first, h1)
    /\ useAudioInputs additionalAudioInputs props' (Some context) h1
       = (inr second, h2)
    /\ elements h2 (devices second)
       = elements h (devices context)
         ++ (if needAdditionalIO props' then configured additionalAudioInputs
             else [])
    /\ elements h2 (devices first) = elements h1 (devices first)
    /\ selectedDevice second = selectedDevice first.
Proof.
  intros Hctx.
  destruct (useAudioInputs_result props context h)
    as (first & h1 & E1 & Hs1 & _ & Ha1).
  destruct (useAudioInputs_result props' context h1)
    as (second & h2 & E2 & Hs2 & He2 & _).
  exists first, second, h1, h2.
  split; [done|]. split; [done|].
  assert (F1 : forall r zs, h !! r = Some zs -> h1 !! r = Some zs).
  { intros r zs Hr.
    pose proof (useAudioInputs_frame props (Some context) h r zs Hr) as F.
    by rewrite E1 in F. }
  assert (F2 : forall r zs, h1 !! r = Some zs -> h2 !! r = Some zs).
  { intros r zs Hr.
    pose proof (useAudioInputs_frame props' (Some context) h1 r zs Hr) as F.
    by rewrite E2 in F. }
  split; [|split].
  - rewrite He2. f_equal. apply elements_frame; [apply F1 | done].
  - apply elements_frame; [apply F2 | by apply Ha1].
  - congruence.
Qed.

End AccessorFacts.

(** * Properties of the provider *)

Section ProviderFacts.

Import Provider.

(** ** The lookup of the cached selection *)

Lemma existingDevice_found (sel : option string) (l : list MediaDeviceInfo)
    (d : MediaDeviceInfo) :
  existingDevice sel l = Some d -> In d l /\ Some (deviceId d) = sel.
Proof.
  unfold existingDevice. intros H.
  apply find_some in H as [Hin Hid].
  split; [done|]. by apply bool_decide_eq_true in Hid.
Qed.

Lemma existingDevice_absent (sel : option string) (l : list MediaDeviceInfo) :
  (forall d, In d l -> Some (deviceId d) <> sel) -> existingDevice sel l = None.
Proof.
  intros Habs. unfold existingDevice.
  destruct (List.find _ l) as [d|] eqn:E; [|done].
  apply find_some in E as [Hin Hid].
  apply bool_decide_eq_true in Hid. by destruct (Habs d Hin).
Qed.

Lemma existingDevice_present (sel : option string) (l : list MediaDeviceInfo)
    (d : MediaDeviceInfo) :
  In d l -> Some (deviceId d) = sel ->
  exists d', existingDevice sel l = Some d' /\ deviceId d' = deviceId d.
Proof.
  intros Hin Hid. unfold existingDevice.
  destruct (List.find _ l) as [d'|] eqn:E.
  - exists d'. split; [done|].
    apply find_some in E as [_ E]. apply bool_decide_eq_true in E. congruence.
  - eapply find_none in E; [|exact Hin].
    apply bool_decide_eq_false in E. done.
Qed.

Lemma nothing_selected_absent (sel : option string) (l : list MediaDeviceInfo) :
  nothing_selected sel ->
  (sel = Some "none" -> sentinel_free l) ->
  existingDevice sel l = None.
Proof.
  intros [-> | ->] Hnone; apply existingDevice_absent; intros d Hin.
  - done.
  - intros [= E]. by apply (Hnone eq_refl d Hin).
Qed.

(** ** One call of the reconciliation observer *)

Lemma audioInputsChanged_absent av sel mm l settle :
  existingDevice sel l = None ->
  performed settle (audioInputsChanged true av sel mm l)
  = [selectAudioInputDevice "none"].
Proof.
  intros E. unfold audioInputsChanged. rewrite E. simpl.
  by destruct (settle _).
Qed.

(** ** Transitions *)

Ltac unfold_ops :=
  unfold selection_effect, selection_cleanup, callback, init_effect,
    initAudioInput_resume, initAudioInput_rejected, init_cleanup,
    reconcile_effect, reconcile_cleanup, device_change, log, setAudioInputs,
    setSelectedAudioInputDevice, set_initialized, with_initEffects,
    with_reconcileEffects in *.

Ltac break_match :=
  repeat match goal with
         | |- context [match ?x with _ => _ end] => destruct x eqn:?
         end.

Lemma reconciliation_app (cs cs' : list Call) :
  reconciliation (cs ++ cs') = reconciliation cs ++ reconciliation cs'.
Proof. apply filter_app. Qed.

Lemma reconcile_uninitialized st mm settle l r :
  initialized st = false -> reconcile st mm settle l r = [].
Proof. intros H. unfold reconcile. by rewrite H. Qed.

Lemma flat_map_nil {A B} (f : A -> list B) (l : list A) :
  (forall a, f a = []) -> flat_map f l = [].
Proof. intros H. induction l as [|a l IH]; simpl; [done|]. by rewrite H, IH. Qed.

Lemma flat_map_const {A B} (f : A -> list B) (b : B) (l : list A) :
  Forall (fun a => f a = [b]) l -> flat_map f l = repeat b (length l).
Proof.
  induction 1 as [|a l Ha _ IH]; simpl; [done|]. by rewrite Ha, IH.
Qed.

Lemma initialized_stays (st : State) (ev : Event) :
  initialized st = true -> initialized (step st ev) = true.
Proof.
  intros H. destruct ev; simpl; unfold_ops; break_match; simpl; done.
Qed.

Lemma initialized_rises (st : State) (ev : Event) :
  initialized st = false -> initialized (step st ev) = true ->
  exists k devices e av,
    ev = FetchFulfilled k devices /\ initEffects st !! k = Some e
    /\ awaiting e = true /\ isMounted e = true /\ init_audioVideo e = Some av.
Proof.
  intros H0 H1.
  destruct ev; simpl in H1; unfold_ops;
    try (revert H1; break_match; simpl; congruence).
  destruct (initEffects st !! k) as [e|] eqn:Ek; [|congruence].
  destruct (awaiting e) eqn:Ea; [|congruence].
  destruct (init_audioVideo e) as [av|] eqn:Ev; [|congruence].
  destruct (isMounted e) eqn:Em; [|simpl in H1; congruence].
  by exists k, devices, e, av.
Qed.

Lemma fulfilled_while_mounted (st : State) k devices e av :
  initEffects st !! k = Some e -> awaiting e = true -> isMounted e = true ->
  init_audioVideo e = Some av ->
  initialized (step st (FetchFulfilled k devices)) = true
  /\ audioInputs (step st (FetchFulfilled k devices)) = devices.
Proof.
  intros Hk Ha Hm Hv. simpl. unfold initAudioInput_resume.
  by rewrite Hk, Ha, Hv, Hm.
Qed.

Lemma step_before_initialization (st : State) (ev : Event) :
  initialized st = false -> is_fetch_fulfilled ev = false ->
  initialized (step st ev) = false
  /\ reconciliation (calls (step st ev)) = reconciliation (calls st).
Proof.
  intros H0 Hev.
  destruct ev; try discriminate Hev; simpl; unfold_ops;
    try (break_match; simpl; rewrite ?reconciliation_app, ?app_nil_r; done).
  rewrite flat_map_nil by (intros r; by apply reconcile_uninitialized).
  break_match; simpl; by rewrite app_nil_r.
Qed.

Lemma run_before_initialization (evs : list Event) (st : State) :
  initialized st = false ->
  Forall (fun ev => is_fetch_fulfilled ev = false) evs ->
  initialized (run st evs) = false
  /\ reconciliation (calls (run st evs)) = reconciliation (calls st).
Proof.
  intros H0 Hevs. revert st H0.
  induction Hevs as [|ev evs Hev _ IH]; intros st H0; simpl; [done|].
  destruct (step_before_initialization st ev H0 Hev) as [H1 Hc].
  destruct (IH _ H1) as [H2 Hc']. split; [done | congruence].
Qed.

(** ** Instances of the initialization effect after their cleanup *)

Lemma initEffects_grow (st : State) (ev : Event) :
  length (initEffects st) <= length (initEffects (step st ev)).
Proof.
  destruct ev; simpl; unfold_ops; break_match; simpl;
    rewrite ?length_app, ?length_insert; simpl; lia.
Qed.

Lemma initEffects_grow_run (evs : list Event) (st : State) :
  length (initEffects st) <= length (initEffects (run st evs)).
Proof.
  revert st. induction evs as [|ev evs IH]; intros st; simpl; [done|].
  etransitivity; [apply (initEffects_grow st ev) | apply IH].
Qed.

Lemma init_effect_instance (st : State) (audioVideo : option AudioVideo) :
  length (initEffects st) < length (initEffects (step st (InitEffectRun audioVideo))).
Proof.
  destruct audioVideo; simpl; unfold_ops; simpl; rewrite length_app; simpl; lia.
Qed.

Lemma cleanup_tears_down (st : State) (k : nat) :
  k < length (initEffects st) -> torn_down k (step st (InitCleanup k)).
Proof.
  intros Hk. apply lookup_lt_is_Some_2 in Hk as Hk'. destruct Hk' as [e He].
  simpl. unfold init_cleanup. rewrite He.
  exists (unmounted e). split; [|done].
  destruct (init_audioVideo e); unfold_ops; simpl;
    by rewrite list_lookup_insert_eq.
Qed.

Lemma insert_keeps_torn_down (l : list InitEffect) (k k' : nat) (e e' new : InitEffect) :
  l !! k = Some e -> isMounted e = false ->
  l !! k' = Some e' -> isMounted new = isMounted e' ->
  exists e0, <[k' := new]> l !! k = Some e0 /\ isMounted e0 = false.
Proof.
  intros Hk Hm Hk' Hnew.
  destruct (decide (k = k')) as [<-|Hne].
  - exists new. split.
    + apply list_lookup_insert_eq. by eapply lookup_lt_Some.
    + congruence.
  - exists e. by rewrite list_lookup_insert_ne.
Qed.

Lemma torn_down_stays (st : State) (ev : Event) (k : nat) :
  torn_down k st -> torn_down k (step st ev).
Proof.
  intros (e & He & Hm). unfold torn_down.
  destruct ev as [| |d|audioVideo|k'|k' devices|k'|audioVideo|j|av l mm settle];
    simpl; unfold_ops.
  - by eauto.
  - by eauto.
  - by eauto.
  - destruct audioVideo; simpl; exists e;
      (split; [by apply lookup_app_l_Some | done]).
  - destruct (initEffects st !! k') as [e'|] eqn:Ek'; [|by eauto].
    destruct (decide (k = k')) as [<-|Hne].
    + exists (unmounted e'). split; [|done].
      destruct (init_audioVideo e'); simpl;
        (apply list_lookup_insert_eq; by eapply lookup_lt_Some).
    + exists e. split; [|done].
      destruct (init_audioVideo e'); simpl; by rewrite list_lookup_insert_ne.
  - destruct (initEffects st !! k') as [e'|] eqn:Ek'; [|by eauto].
    destruct (awaiting e') eqn:Ea; [|by eauto].
    destruct (init_audioVideo e') as [av|]; [|by eauto].
    destruct (isMounted e') eqn:Em; simpl.
    + destruct (decide (k = k')) as [<-|Hne]; [congruence|].
      exists e. by rewrite list_lookup_insert_ne.
    + by eapply insert_keeps_torn_down.
  - destruct (initEffects st !! k') as [e'|] eqn:Ek'; [|by eauto].
    simpl. by eapply insert_keeps_torn_down.
  - destruct audioVideo; simpl; by eauto.
  - destruct (reconcileEffects st !! j); simpl; by eauto.
  - destruct (existsb _ _); simpl; by eauto.
Qed.

Lemma torn_down_stays_run (evs : list Event) (st : State) (k : nat) :
  torn_down k st -> torn_down k (run st evs).
Proof.
  revert st. induction evs as [|ev evs IH]; intros st H; simpl; [done|].
  by apply IH, torn_down_stays.
Qed.

Lemma resume_torn_down (st : State) (k : nat) (devices : list MediaDeviceInfo) :
  torn_down k st ->
  audioInputs (step st (FetchFulfilled k devices)) = audioInputs st
  /\ calls (step st (FetchFulfilled k devices)) = calls st
  /\ initialized (step st (FetchFulfilled k devices)) = initialized st
  /\ selectedAudioInputDevice (step st (FetchFulfilled k devices))
     = selectedAudioInputDevice st
  /\ reconcileEffects (step st (FetchFulfilled k devices)) = reconcileEffects st
  /\ observing <$> initEffects (step st (FetchFulfilled k devices))
     = observing <$> initEffects st.
Proof.
  intros (e & He & Hm). simpl. unfold initAudioInput_resume.
  rewrite He, Hm.
  destruct (awaiting e); [|done].
  destruct (init_audioVideo e); [|done].
  unfold_ops; simpl. repeat (split; [done|]).
  rewrite list_fmap_insert. apply list_insert_id.
  by rewrite list_lookup_fmap, He.
Qed.

(** ** Device-change events on an initialized component *)

Lemma device_change_frame (st : State) av l mm settle :
  initialized (device_change av l mm settle st) = initialized st
  /\ reconcileEffects (device_change av l mm settle st) = reconcileEffects st
  /\ calls (device_change av l mm settle st)
     = calls st ++ flat_map (reconcile st mm settle l) (reconcilers av st).
Proof. unfold device_change. by destruct (existsb _ _). Qed.

Lemma select_none_each_time (evs : list Event) (st : State) (av : AudioVideo) :
  initialized st = true ->
  Forall (fun r => nothing_selected (rec_selected r)) (reconcilers av st) ->
  Forall (plain_change av (reconcilers av st)) evs ->
  calls (run st evs)
  = calls st ++ repeat (selectAudioInputDevice "none")
                  (length evs * length (reconcilers av st)).
Proof.
  intros Hi Hsel Hevs. revert Hi Hsel.
  remember (reconcilers av st) as rs eqn:Hrs. revert st Hrs.
  induction Hevs as [|ev evs Hev _ IH]; intros st Hrs Hi Hsel; simpl.
  - by rewrite app_nil_r.
  - destruct ev as [| | | | | | | | |av' l mm settle]; try done.
    destruct Hev as [-> Hnone]. simpl.
    destruct (device_change_frame st av l mm settle) as (Hi' & Hr' & Hc').
    rewrite (IH (device_change av l mm settle st)); [| |congruence|done].
    2: { unfold reconcilers. by rewrite Hr'. }
    rewrite Hc', repeat_app, <- app_assoc, <- Hrs. f_equal. f_equal.
    apply flat_map_const, Forall_forall. intros r Hr.
    unfold reconcile. rewrite Hi.
    apply audioInputsChanged_absent, nothing_selected_absent.
    + rewrite Forall_forall in Hsel. by apply Hsel.
    + intros Hs. apply (Hnone r); [by apply list_elem_of_In | done].
Qed.

(** ** The claims about the provider *)

(** C1: an initialization effect starts its fetch, and its cleanup runs
    before the fetch is answered. Whatever happens before and after the
    cleanup, when the answer then arrives nothing is written: the device
    list, the calls made so far (no observer is added), the initialized
    flag, the cached selection, the reconciliation observers and the list
    observers on the engine are as they were. *)
Theorem teardown_discards_fetch (st0 : State) (av : AudioVideo)
    (before after : list Event) (devices : list MediaDeviceInfo) :
  let k := length (initEffects st0) in
  let st :=
    run (step (run (step st0 (InitEffectRun (Some av))) before) (InitCleanup k))
      after in
  let st' := step st (FetchFulfilled k devices) in
  audioInputs st' = audioInputs st
  /\ calls st' = calls st
  /\ initialized st' = initialized st
  /\ selectedAudioInputDevice st' = selectedAudioInputDevice st
  /\ reconcileEffects st' = reconcileEffects st
  /\ observing <$> initEffects st' = observing <$> initEffects st.
Proof.
  intros k st st'. subst st st'.
  apply resume_torn_down, torn_down_stays_run, cleanup_tears_down.
  eapply Nat.lt_le_trans; [|apply initEffects_grow_run].
  apply init_effect_instance.
Qed.


(** C3: on an initialized component, when no device of the event's list
    has the cached selection as its id, the observer makes one call,
    [selectAudioInputDevice('none')], and no other. *)
Theorem absent_selects_none (av : AudioVideo) (sel : option string)
    (mm : MeetingManager) (l : list MediaDeviceInfo)
    (settle : Call -> Settlement) :
  (forall d, In d l -> Some (deviceId d) <> sel) ->
  performed settle (audioInputsChanged true av sel mm l)
  = [selectAudioInputDevice "none"].
Proof.
  intros Habs. by apply audioInputsChanged_absent, existingDevice_absent.
Qed.

(** C4: on an initialized component, when the list of the event has the
    cached selection and that entry's id and label are the ones the
    session manager reports, the observer does nothing. *)
Theorem unchanged_device_is_quiet (av : AudioVideo) (sel : option string)
    (mm : MeetingManager) (l : list MediaDeviceInfo) (d : MediaDeviceInfo)
    (settle : Call -> Settlement) :
  existingDevice sel l = Some d ->
  mm_selectedAudioInputDevice mm = Some (deviceId d) ->
  mm_selectedAudioInputDeviceLabel mm = Some (label d) ->
  audioInputsChanged true av sel mm l = Done
  /\ performed settle (audioInputsChanged true av sel mm l) = [].
Proof.
  intros Hd Hid Hlabel.
  assert (E : audioInputsChanged true av sel mm l = Done).
  { unfold audioInputsChanged, outdatedDevice. rewrite Hd, Hid, Hlabel. simpl.
    rewrite !bool_decide_eq_false_2; [done | by intros []| by intros []]. }
  by rewrite E.
Qed.

(** C5: from a state whose initialized flag is unset, no sequence of
    events without a fulfilled fetch - device-change events in particular,
    in any number and to any observer - sets the flag or adds a deselect,
    reselect or select-none call to the calls made. *)
Theorem no_reconciliation_before_initialization (st : State) (evs : list Event) :
  initialized st = false ->
  Forall (fun ev => is_fetch_fulfilled ev = false) evs ->
  reconciliation (calls (run st evs)) = reconciliation (calls st)
  /\ initialized (run st evs) = false.
Proof.
  intros H0 Hevs.
  by destruct (run_before_initialization evs st H0 Hevs).
Qed.

(** C8: the initialized flag is unset at mount; a transition sets it only
    when it is the fulfilment of the fetch of a suspended, still mounted
    instance of the initialization effect, and such a fulfilment does set
    it; once set it stays set through every sequence of events. *)
Theorem initialization_one_way :
  (forall mm, initialized (mount mm) = false)
  /\ (forall st ev,
        initialized st = false -> initialized (step st ev) = true ->
        exists k devices e av,
          ev = FetchFulfilled k devices /\ initEffects st !! k = Some e
          /\ awaiting e = true /\ isMounted e = true
          /\ init_audioVideo e = Some av)
  /\ (forall st k devices e av,
        initEffects st !! k = Some e -> awaiting e = true ->
        isMounted e = true -> init_audioVideo e = Some av ->
        initialized (step st (FetchFulfilled k devices)) = true)
  /\ (forall st evs, initialized st = true -> initialized (run st evs) = true).
Proof.
  split; [done|]. split; [apply initialized_rises|]. split.
  - intros st k devices e av Hk Ha Hm Hv.
    by destruct (fulfilled_while_mounted st k devices e av Hk Ha Hm Hv).
  - intros st evs. revert st.
    induction evs as [|ev evs IH]; intros st H; simpl; [done|].
    by apply IH, initialized_stays.
Qed.

(** C10: on an initialized component whose cached selection is [null] or
    ['none'], a device-change event makes the observer call
    [selectAudioInputDevice('none')], the list having no device with id
    ['none'] when that is the cached selection; and a sequence of such
    events adds one such call per event and observer, and nothing else, to
    the calls made. *)
Theorem nothing_selected_is_not_quiescent :
  (forall av sel mm l settle,
      nothing_selected sel ->
      (sel = Some "none" -> sentinel_free l) ->
      performed settle (audioInputsChanged true av sel mm l)
      = [selectAudioInputDevice "none"])
  /\ (forall st av evs,
        initialized st = true ->
        Forall (fun r => nothing_selected (rec_selected r)) (reconcilers av st) ->
        Forall (plain_change av (reconcilers av st)) evs ->
        calls (run st evs)
        = calls st ++ repeat (selectAudioInputDevice "none")
                        (length evs * length (reconcilers av st))).
Proof.
  split.
  - intros av sel mm l settle Hsel Hnone.
    by apply audioInputsChanged_absent, nothing_selected_absent.
  - intros st av evs. apply select_none_each_time.
Qed.

(** ** Further properties of the reconciliation observer *)

Lemma audioInputsChanged_stale av sel mm l d settle :
  existingDevice sel l = Some d ->
  outdatedDevice mm d = true ->
  performed settle (audioInputsChanged true av sel mm l)
  = console_log stale_msg :: chooseAudioInputDevice av None
      :: match settle (chooseAudioInputDevice av None) with
         | Fulfilled => [selectAudioInputDevice (deviceId d)]
         | Rejected => []
         end.
Proof.
  intros Hd Hout. unfold audioInputsChanged. rewrite Hd, Hout. simpl.
  destruct (settle (chooseAudioInputDevice av None)); [|done].
  by destruct (settle (selectAudioInputDevice _)).
Qed.

Lemma outdatedDevice_false mm d :
  outdatedDevice mm d = false
  <-> mm_selectedAudioInputDeviceLabel mm = Some (label d)
      /\ mm_selectedAudioInputDevice mm = Some (deviceId d).
Proof.
  unfold outdatedDevice. rewrite orb_false_iff, !bool_decide_eq_false.
  split.
  - intros [Hl Hi]. split.
    + destruct (decide (mm_selectedAudioInputDeviceLabel mm = Some (label d)));
        [done|]. exfalso. apply Hl. congruence.
    + destruct (decide (mm_selectedAudioInputDevice mm = Some (deviceId d)));
        [done|]. exfalso. apply Hi. congruence.
  - intros [-> ->]. split; by intros [].
Qed.

Lemma observer_calls av sel mm l settle init :
  Forall (observer_call av sel)
    (performed settle (audioInputsChanged init av sel mm l)).
Proof.
  unfold audioInputsChanged, observer_call.
  destruct init; simpl; [|done].
  destruct (existingDevice sel l) as [d|] eqn:Hd.
  - apply existingDevice_found in Hd as [_ Hid].
    destruct (outdatedDevice mm d); simpl; [|done].
    destruct (settle (chooseAudioInputDevice av None));
      [destruct (settle (selectAudioInputDevice _))|];
      repeat (constructor; [by eauto 10|]); done.
  - simpl. destruct (settle _); repeat (constructor; [by eauto 10|]); done.
Qed.

(** X1: on an initialized component, when the list has the cached
    selection but the session manager reports another device as selected,
    the entry is stale whatever its label: the observer logs, deselects
    and, that promise fulfilled, selects the cached id. *)
Theorem drifted_selection_drops_then_selects (av : AudioVideo)
    (sel : option string) (mm : MeetingManager) (l : list MediaDeviceInfo)
    (d : MediaDeviceInfo) (settle : Call -> Settlement) :
  existingDevice sel l = Some d ->
  mm_selectedAudioInputDevice mm <> Some (deviceId d) ->
  settle (chooseAudioInputDevice av None) = Fulfilled ->
  performed settle (audioInputsChanged true av sel mm l)
  = [console_log stale_msg; chooseAudioInputDevice av None;
     selectAudioInputDevice (deviceId d)].
Proof.
  intros Hd Hid Hsettle.
  rewrite (audioInputsChanged_stale av sel mm l d settle Hd), Hsettle; [done|].
  destruct (outdatedDevice mm d) eqn:E; [done|].
  apply outdatedDevice_false in E as [_ E]. done.
Qed.

(** X2: when the promise of [chooseAudioInputDevice(null)] rejects, the
    observer of a stale device ends there: the deselect is its last call
    and no device is selected again. *)
Theorem rejected_deselect_is_not_followed (av : AudioVideo)
    (sel : option string) (mm : MeetingManager) (l : list MediaDeviceInfo)
    (d : MediaDeviceInfo) (settle : Call -> Settlement) :
  existingDevice sel l = Some d ->
  outdatedDevice mm d = true ->
  settle (chooseAudioInputDevice av None) = Rejected ->
  performed settle (audioInputsChanged true av sel mm l)
  = [console_log stale_msg; chooseAudioInputDevice av None].
Proof.
  intros Hd Hout Hsettle.
  by rewrite (audioInputsChanged_stale av sel mm l d settle Hd Hout), Hsettle.
Qed.

(** X3: the observer makes no call exactly when the component is not
    initialized, or the list has the cached selection and the session
    manager reports that entry's id and label. *)
Theorem observer_silent_iff (init : bool) (av : AudioVideo)
    (sel : option string) (mm : MeetingManager) (l : list MediaDeviceInfo)
    (settle : Call -> Settlement) :
  performed settle (audioInputsChanged init av sel mm l) = []
  <-> init = false
      \/ exists d, existingDevice sel l = Some d
                   /\ mm_selectedAudioInputDeviceLabel mm = Some (label d)
                   /\ mm_selectedAudioInputDevice mm = Some (deviceId d).
Proof.
  split.
  - intros Hnil. destruct init; [right | by left].
    destruct (existingDevice sel l) as [d|] eqn:Hd.
    + exists d. split; [done|]. apply outdatedDevice_false.
      destruct (outdatedDevice mm d) eqn:Hout; [|done].
      by rewrite (audioInputsChanged_stale av sel mm l d settle Hd Hout) in Hnil.
    + by rewrite (audioInputsChanged_absent av sel mm l settle Hd) in Hnil.
  - intros [-> | (d & Hd & Hl & Hi)]; [done|].
    unfold audioInputsChanged. destruct init; [|done]. simpl. rewrite Hd.
    by rewrite (proj2 (outdatedDevice_false mm d) (conj Hl Hi)).
Qed.

(** X4: whatever the event and however the promises settle, the observer
    calls nothing but [console.log], [chooseAudioInputDevice(null)] on its
    own engine and [selectAudioInputDevice] with the sentinel or the
    cached selection; it makes at most two reconciliation calls. *)
Theorem observer_only_resets_or_reselects (init : bool) (av : AudioVideo)
    (sel : option string) (mm : MeetingManager) (l : list MediaDeviceInfo)
    (settle : Call -> Settlement) :
  Forall (observer_call av sel)
    (performed settle (audioInputsChanged init av sel mm l))
  /\ length (reconciliation
               (performed settle (audioInputsChanged init av sel mm l))) <= 2.
Proof.
  split; [apply observer_calls|].
  unfold audioInputsChanged. destruct init; simpl; [|lia].
  destruct (existingDevice sel l) as [d|].
  - destruct (outdatedDevice mm d); simpl; [|lia].
    destruct (settle (chooseAudioInputDevice av None));
      [destruct (settle (selectAudioInputDevice _))|]; simpl; lia.
  - simpl. destruct (settle _); simpl; lia.
Qed.

(** ** Further properties of the transition system *)

Lemma run_app (st : State) (evs evs' : list Event) :
  run st (evs ++ evs') = run (run st evs) evs'.
Proof. apply fold_left_app. Qed.

Lemma observer_sound_mono (st st' : State) (e : InitEffect) :
  (initialized st = true -> initialized st' = true) ->
  observer_sound st e -> observer_sound st' e.
Proof.
  intros Hmono He Hobs. destruct (He Hobs) as (? & ? & ? & ?). by auto.
Qed.

Lemma sound_step (st : State) (ev : Event) :
  all_observers_sound st -> all_observers_sound (step st ev).
Proof.
  unfold all_observers_sound. intros Hs.
  destruct ev as [| |d|audioVideo|k|k devices|k|audioVideo|j|av l mm settle];
    simpl; unfold_ops.
  - done.
  - done.
  - done.
  - destruct audioVideo; simpl; (apply Forall_app; split; [done|]);
      by repeat constructor.
  - destruct (initEffects st !! k) as [e|] eqn:Ek; [|done].
    destruct (init_audioVideo e); simpl; (apply Forall_insert; [done|]);
      by intros ?.
  - destruct (initEffects st !! k) as [e|] eqn:Ek; [|done].
    destruct (awaiting e) eqn:Ea; [|done].
    destruct (init_audioVideo e) as [av|] eqn:Ev; [|done].
    pose proof (Forall_lookup_1 _ _ _ _ Hs Ek) as He.
    destruct (isMounted e) eqn:Em; simpl.
    + apply Forall_insert.
      * eapply Forall_impl; [exact Hs|]. intros e' He' Hobs.
        destruct (He' Hobs) as (? & ? & ? & ?). by auto.
      * intros _. simpl. rewrite Em, Ev. by eauto.
    + apply Forall_insert; [done|].
      intros Hobs. destruct (He Hobs) as (? & ? & ? & ?). congruence.
  - destruct (initEffects st !! k) as [e|] eqn:Ek; [|done].
    pose proof (Forall_lookup_1 _ _ _ _ Hs Ek) as He.
    simpl. apply Forall_insert; [done|].
    intros Hobs. destruct (He Hobs) as (? & ? & ? & ?). by auto.
  - by destruct audioVideo.
  - by destruct (reconcileEffects st !! j).
  - by destruct (existsb _ _).
Qed.

Lemma sound_run (evs : list Event) (st : State) :
  all_observers_sound st -> all_observers_sound (run st evs).
Proof.
  revert st. induction evs as [|ev evs IH]; intros st H; simpl; [done|].
  by apply IH, sound_step.
Qed.

Lemma sound_mount (mm : MeetingManager) : all_observers_sound (mount mm).
Proof. constructor. Qed.

Lemma list_observer_initialized (st : State) (av : AudioVideo) :
  all_observers_sound st ->
  existsb (list_observer_on av) (initEffects st) = true ->
  initialized st = true.
Proof.
  intros Hs Hex. apply existsb_exists in Hex as (e & Hin & Hon).
  unfold list_observer_on in Hon. apply andb_true_iff in Hon as [Hobs _].
  apply list_elem_of_In in Hin. unfold all_observers_sound in Hs.
  rewrite Forall_forall in Hs. by destruct (Hs e Hin Hobs) as (_ & _ & _ & ?).
Qed.

Lemma empty_until_initialized_step (st : State) (ev : Event) :
  all_observers_sound st ->
  (initialized st = false -> audioInputs st = []) ->
  initialized (step st ev) = false -> audioInputs (step st ev) = [].
Proof.
  intros Hs Hempty.
  destruct ev as [| |d|audioVideo|k|k devices|k|audioVideo|j|av l mm settle];
    simpl; unfold_ops;
    try (break_match; simpl; by auto).
  destruct (existsb (list_observer_on av) (initEffects st)) eqn:Hex; simpl;
    [|by auto].
  intros H0. by rewrite (list_observer_initialized st av Hs Hex) in H0.
Qed.

Lemma empty_until_initialized_run (evs : list Event) (st : State) :
  all_observers_sound st ->
  (initialized st = false -> audioInputs st = []) ->
  initialized (run st evs) = false -> audioInputs (run st evs) = [].
Proof.
  revert st. induction evs as [|ev evs IH]; intros st Hs Hempty; simpl; [done|].
  apply IH; [by apply sound_step | by apply empty_until_initialized_step].
Qed.

(** X5: in every state the component reaches from its mount, an instance
    of the initialization effect whose list observer is on the engine is
    still mounted, has had its fetch answered, closed over a handle, and
    the initialized flag is set. *)
Theorem list_observer_only_when_live (mm : MeetingManager) (evs : list Event)
    (k : nat) (e : InitEffect) :
  initEffects (run (mount mm) evs) !! k = Some e ->
  observing e = true ->
  isMounted e = true /\ awaiting e = false
  /\ is_Some (init_audioVideo e) /\ initialized (run (mount mm) evs) = true.
Proof.
  intros Hk Hobs.
  pose proof (sound_run evs (mount mm) (sound_mount mm)) as Hs.
  exact (Forall_lookup_1 _ _ _ _ Hs Hk Hobs).
Qed.

(** X6: in every state the component reaches from its mount, the device
    list is empty as long as the initialized flag is unset: no event
    writes the list before the first fetch is answered. *)
Theorem device_list_empty_until_initialized (mm : MeetingManager)
    (evs : list Event) :
  initialized (run (mount mm) evs) = false ->
  audioInputs (run (mount mm) evs) = [].
Proof.
  apply empty_until_initialized_run; [apply sound_mount | done].
Qed.

(** X7: once the cleanup of an instance of the initialization effect has
    run, in a state reached from the mount, that instance stays unmounted
    and its list observer is never on the engine again, whatever follows,
    the answer of its fetch included. *)
Theorem list_observer_off_after_cleanup (mm : MeetingManager)
    (before after : list Event) (k : nat) :
  k < length (initEffects (run (mount mm) before)) ->
  exists e,
    initEffects (run (step (run (mount mm) before) (InitCleanup k)) after) !! k
    = Some e
    /\ isMounted e = false /\ observing e = false.
Proof.
  intros Hk.
  destruct (torn_down_stays_run after _ k
              (cleanup_tears_down (run (mount mm) before) k Hk))
    as (e & He & Hm).
  exists e. split; [done|]. split; [done|].
  assert (Hs : all_observers_sound
                 (run (step (run (mount mm) before) (InitCleanup k)) after)).
  { apply sound_run, sound_step, sound_run, sound_mount. }
  destruct (observing e) eqn:Hobs; [|done].
  destruct (Forall_lookup_1 _ _ _ _ Hs He Hobs) as (? & _). congruence.
Qed.

Lemma selection_step (st : State) (ev : Event) :
  selectedAudioInputDevice (step st ev)
  = match ev with
    | SelectionChanged d => d
    | _ => selectedAudioInputDevice st
    end.
Proof. destruct ev; simpl; unfold_ops; break_match; done. Qed.

Lemma last_cons_default {A} (l : list A) (x d : A) :
  List.last (x :: l) d = List.last l x.
Proof.
  revert x d. induction l as [|y l IH]; intros x d; [done|].
  change (List.last (x :: y :: l) d) with (List.last (y :: l) d).
  by rewrite !IH.
Qed.

(** X8: the cached selection is the selection the session manager
    notified last, and the one read at mount when it notified none: no
    effect, cleanup, fetch answer or device-change event writes it, the
    reconciliation's own select calls included. *)
Theorem cached_selection_is_last_notified (st : State) (evs : list Event) :
  selectedAudioInputDevice (run st evs)
  = List.last (notified evs) (selectedAudioInputDevice st).
Proof.
  revert st. induction evs as [|ev evs IH]; intros st; [done|].
  change (run st (ev :: evs)) with (run (step st ev) evs).
  rewrite IH, selection_step.
  destruct ev; try done.
  change (notified (SelectionChanged updatedAudioInputDevice :: evs))
    with (updatedAudioInputDevice :: notified evs).
  symmetry. apply last_cons_default.
Qed.

Lemma closure_step (st : State) (ev : Event) (j : nat) (r : ReconcileEffect) :
  reconcileEffects st !! j = Some r ->
  exists r',
    reconcileEffects (step st ev) !! j = Some r'
    /\ rec_audioVideo r' = rec_audioVideo r
    /\ rec_selected r' = rec_selected r
    /\ (registered r' = true -> registered r = true).
Proof.
  intros Hj.
  destruct ev as [| |d|audioVideo|k|k devices|k|audioVideo|j'|av l mm settle];
    simpl; unfold_ops;
    try (break_match; simpl; by eauto).
  - destruct audioVideo; simpl; [|by eauto].
    exists r. split; [by apply lookup_app_l_Some | done].
  - destruct (reconcileEffects st !! j') as [r0|] eqn:Ej'; simpl; [|by eauto].
    destruct (decide (j = j')) as [<-|Hne].
    + exists (unregistered r0). rewrite list_lookup_insert_eq
        by (by eapply lookup_lt_Some).
      assert (r0 = r) as -> by congruence. by simpl.
    + exists r. by rewrite list_lookup_insert_ne.
Qed.

Lemma closure_run (evs : list Event) (st : State) (j : nat) (r : ReconcileEffect) :
  reconcileEffects st !! j = Some r ->
  exists r',
    reconcileEffects (run st evs) !! j = Some r'
    /\ rec_audioVideo r' = rec_audioVideo r
    /\ rec_selected r' = rec_selected r
    /\ (registered r' = true -> registered r = true).
Proof.
  revert st r. induction evs as [|ev evs IH]; intros st r Hj; simpl.
  - by eauto.
  - destruct (closure_step st ev j r Hj) as (r1 & H1 & Hav & Hsel & Hreg).
    destruct (IH _ _ H1) as (r2 & H2 & Hav2 & Hsel2 & Hreg2).
    exists r2. split; [done|]. split; [congruence|]. split; [congruence|].
    by auto.
Qed.

(** X9: the observer a run of the reconciliation effect adds keeps the
    handle and the selection the effect closed over, through every later
    event, selection notifications included, and once its cleanup has
    taken it off the engine it is never on again: a new selection reaches
    the reconciliation only through a new run of the effect. *)
Theorem reconciliation_closure_is_fixed (st : State) (av : AudioVideo)
    (evs evs' : list Event) :
  let j := length (reconcileEffects st) in
  exists r r',
    reconcileEffects (run (step st (ReconcileEffectRun (Some av))) evs) !! j
    = Some r
    /\ rec_audioVideo r = av
    /\ rec_selected r = selectedAudioInputDevice st
    /\ reconcileEffects
         (run (run (step st (ReconcileEffectRun (Some av))) evs) evs') !! j
       = Some r'
    /\ rec_selected r' = selectedAudioInputDevice st
    /\ (registered r' = true -> registered r = true).
Proof.
  intros j.
  assert (H0 : reconcileEffects (step st (ReconcileEffectRun (Some av))) !! j
               = Some {| rec_audioVideo := av;
                         rec_selected := selectedAudioInputDevice st;
                         registered := true |}).
  { simpl. unfold_ops. simpl. subst j.
    rewrite lookup_app_r by done. by rewrite Nat.sub_diag. }
  destruct (closure_run evs _ j _ H0) as (r & Hr & Hav & Hsel & _).
  destruct (closure_run evs' _ j _ Hr) as (r' & Hr' & _ & Hsel' & Hreg').
  exists r, r'. simpl in Hav, Hsel. repeat split; try done. congruence.
Qed.

Lemma quiet_without_fetch_step (st : State) (ev : Event) :
  initialized st = false -> no_fetch_pending st -> starts_fetch ev = false ->
  initialized (step st ev) = false
  /\ no_fetch_pending (step st ev)
  /\ reconciliation (calls (step st ev)) = reconciliation (calls st).
Proof.
  unfold no_fetch_pending. intros H0 Hp Hev.
  destruct ev as [| |d|audioVideo|k|k devices|k|audioVideo|j|av l mm settle];
    simpl; unfold_ops.
  - by rewrite reconciliation_app, app_nil_r.
  - by rewrite reconciliation_app, app_nil_r.
  - done.
  - destruct audioVideo; [done|]. simpl. split; [done|]. split; [|done].
    apply Forall_app. split; [done|]. by repeat constructor.
  - destruct (initEffects st !! k) as [e|] eqn:Ek; [|done].
    pose proof (Forall_lookup_1 _ _ _ _ Hp Ek) as He.
    destruct (init_audioVideo e); simpl;
      rewrite ?reconciliation_app, ?app_nil_r;
      (split; [done|]); (split; [|done]); by apply Forall_insert.
  - destruct (initEffects st !! k) as [e|] eqn:Ek; [|done].
    pose proof (Forall_lookup_1 _ _ _ _ Hp Ek) as He.
    simpl in He. by rewrite He.
  - destruct (initEffects st !! k) as [e|] eqn:Ek; [|done].
    simpl. split; [done|]. split; [|done]. by apply Forall_insert.
  - destruct audioVideo; simpl; by rewrite ?reconciliation_app, ?app_nil_r.
  - destruct (reconcileEffects st !! j); simpl;
      by rewrite ?reconciliation_app, ?app_nil_r.
  - rewrite flat_map_nil by (intros r; by apply reconcile_uninitialized).
    destruct (existsb _ _); simpl; by rewrite app_nil_r.
Qed.

(** X10: the fetch is not retried. With the initialized flag unset and no
    fetch awaiting its answer - the fetch was rejected, its instance had
    no handle - the flag stays unset and no reconciliation call is made,
    whatever events follow, until the initialization effect runs again
    with a handle. *)
Theorem no_retry_without_effect_run (st : State) (evs : list Event) :
  initialized st = false ->
  no_fetch_pending st ->
  Forall (fun ev => starts_fetch ev = false) evs ->
  initialized (run st evs) = false
  /\ reconciliation (calls (run st evs)) = reconciliation (calls st).
Proof.
  intros H0 Hp Hevs. revert st H0 Hp.
  induction Hevs as [|ev evs Hev _ IH]; intros st H0 Hp; simpl; [done|].
  destruct (quiet_without_fetch_step st ev H0 Hp Hev) as (H1 & Hp1 & Hc1).
  destruct (IH _ H1 Hp1) as (H2 & Hc2). split; [done | congruence].
Qed.

Lemma observer_never_fetches av sel mm l settle init :
  List.filter is_fetch (performed settle (audioInputsChanged init av sel mm l))
  = [].
Proof.
  pose proof (observer_calls av sel mm l settle init) as H.
  induction H as [|c cs Hc _ IH]; simpl; [done|].
  rewrite IH. by destruct Hc as [-> | [-> | [-> | (s & _ & ->)]]].
Qed.

Lemma fetches_step (st : State) (ev : Event) :
  List.filter is_fetch (calls (step st ev))
  = List.filter is_fetch (calls st) ++ requested [ev].
Proof.
  destruct ev as [| |d|audioVideo|k|k devices|k|audioVideo|j|av l mm settle];
    simpl; unfold_ops;
    try (break_match; simpl; rewrite ?List.filter_app, ?app_nil_r; done).
  assert (E : List.filter is_fetch
                (flat_map (reconcile st mm settle l) (reconcilers av st)) = []).
  { induction (reconcilers av st) as [|r rs IH]; simpl; [done|].
    rewrite List.filter_app, IH. unfold reconcile.
    by rewrite observer_never_fetches. }
  destruct (existsb _ _); simpl; by rewrite List.filter_app, E.
Qed.

(** X11: the enumeration requests the component makes are, in order, one
    [listAudioInputDevices] per run of the initialization effect with a
    handle, on that handle: none for a run without a handle, none again
    after a cleanup, a rejection or a device-change event. *)
Theorem one_fetch_per_effect_run (st : State) (evs : list Event) :
  List.filter is_fetch (calls (run st evs))
  = List.filter is_fetch (calls st) ++ requested evs.
Proof.
  revert st. induction evs as [|ev evs IH]; intros st.
  - simpl. by rewrite app_nil_r.
  - change (run st (ev :: evs)) with (run (step st ev) evs).
    rewrite IH, fetches_step, <- app_assoc. f_equal.
    unfold requested. simpl. by rewrite app_nil_r.
Qed.

End ProviderFacts.

(** * Instances *)

Import Provider Samples.

(** The example of the spec: the selected device comes back under another
    label. *)
Example relabelled_device_is_reselected :
  calls (step started
           (DeviceChange 7 [mic "a" "Mic B"] (reports "a" "Mic A") fulfils))
  = calls started
    ++ [console_log stale_msg; chooseAudioInputDevice 7 None;
        selectAudioInputDevice "a"].
Proof. reflexivity. Qed.

(** The example of the spec: another device replaces the selected one. *)
Example replaced_device_selects_none :
  calls (step started
           (DeviceChange 7 [mic "b" "Mic B"] (reports "a" "Mic A") fulfils))
  = calls started ++ [selectAudioInputDevice "none"].
Proof. reflexivity. Qed.

(** Cleanup before the answer: the answer is dropped and later events
    find the component uninitialized. *)
Example answer_after_cleanup :
  run starting [InitCleanup 0; FetchFulfilled 0 [mic "a" "Mic A"]]
  = run starting [InitCleanup 0; FetchRejected 0]
  /\ initialized
       (run starting [InitCleanup 0; FetchFulfilled 0 [mic "a" "Mic A"]])
     = false.
Proof. by vm_compute. Qed.



Lemma absent_selects_none_witness :
  performed fulfils
    (audioInputsChanged true 7 (Some "a") (reports "a" "Mic A")
       [mic "b" "Mic B"])
  = [selectAudioInputDevice "none"].
Proof.
  apply (absent_selects_none 7 (Some "a") (reports "a" "Mic A")
           [mic "b" "Mic B"] fulfils).
  intros d [<- | []]. discriminate.
Defined.

Lemma unchanged_device_is_quiet_witness :
  performed fulfils
    (audioInputsChanged true 7 (Some "a") (reports "a" "Mic A")
       [mic "b" "Mic B"; mic "a" "Mic A"])
  = [].
Proof.
  apply (unchanged_device_is_quiet 7 (Some "a") (reports "a" "Mic A")
           [mic "b" "Mic B"; mic "a" "Mic A"] (mic "a" "Mic A") fulfils);
    reflexivity.
Defined.

Lemma no_reconciliation_before_initialization_witness :
  initialized starting = false
  /\ reconciliation
       (calls
          (run starting
             [DeviceChange 7 [mic "a" "Mic B"] (reports "a" "Mic A") fulfils;
              SelectionChanged (Some "b");
              DeviceChange 7 [] (reports "a" "Mic A") fulfils]))
     = [].
Proof.
  split; [reflexivity|].
  apply (no_reconciliation_before_initialization starting
           [DeviceChange 7 [mic "a" "Mic B"] (reports "a" "Mic A") fulfils;
            SelectionChanged (Some "b");
            DeviceChange 7 [] (reports "a" "Mic A") fulfils]);
    [reflexivity | repeat constructor].
Defined.

Lemma initialization_one_way_witness :
  initialized starting = false
  /\ initialized (step starting (FetchFulfilled 0 [mic "a" "Mic A"])) = true
  /\ initialized
       (run started [InitCleanup 0; InitEffectRun None; ReconcileCleanup 0])
     = true.
Proof.
  destruct initialization_one_way as (_ & _ & Hset & Hstay).
  split; [reflexivity|]. split.
  - apply (Hset starting 0 [mic "a" "Mic A"]
             {| isMounted := true; init_audioVideo := Some 7;
                awaiting := true; observing := false |} 7);
      reflexivity.
  - apply (Hstay started); reflexivity.
Defined.

Lemma nothing_selected_is_not_quiescent_witness :
  performed fulfils
    (audioInputsChanged true 7 (Some "none") (reports "none" "None")
       [mic "a" "Mic A"])
  = [selectAudioInputDevice "none"]
  /\ calls
       (run idle
          [DeviceChange 7 [mic "a" "Mic A"] (reports "a" "Mic A") fulfils;
           DeviceChange 7 [mic "a" "Mic A"] (reports "a" "Mic A") fulfils;
           DeviceChange 7 [] (reports "a" "Mic A") fulfils])
     = calls idle ++ repeat (selectAudioInputDevice "none") 3.
Proof.
  destruct nothing_selected_is_not_quiescent as (Hone & Hmany).
  split.
  - apply Hone; [by right|]. intros _ d [<- | []]. discriminate.
  - apply (Hmany idle 7
             [DeviceChange 7 [mic "a" "Mic A"] (reports "a" "Mic A") fulfils;
              DeviceChange 7 [mic "a" "Mic A"] (reports "a" "Mic A") fulfils;
              DeviceChange 7 [] (reports "a" "Mic A") fulfils]).
    + reflexivity.
    + repeat constructor.
    + repeat constructor; intros r [<- | []]; discriminate.
Defined.

Lemma useAudioInputs_pure_read_witness :
  (Accessor.useAudioInputs (Some ["none"]) flagged (Some published) shelf).2 !! 0
  = Some ["a"; "b"]
  /\ Accessor.useAudioInputs (Some ["none"]) None (Some published) shelf
     = (inr published, shelf)
  /\ Accessor.useAudioInputs None flagged (Some published) shelf
     = (inr published, shelf).
Proof.
  split; [|split].
  - apply (useAudioInputs_pure_read (Some ["none"]) flagged published shelf).
    reflexivity.
  - apply (useAudioInputs_pure_read (Some ["none"]) None published shelf).
    by left.
  - apply (useAudioInputs_pure_read None flagged published shelf).
    by right.
Defined.

(** The hook on the sample store: the configured entry comes last, in a
    new array, and the provider's array is as it was. *)
Example flagged_read_appends :
  let '(result, h) :=
    Accessor.useAudioInputs (Some ["none"]) flagged (Some published) shelf in
  result = inr {| Accessor.devices := 1; Accessor.selectedDevice := Some "a" |}
  /\ h !! 1 = Some ["a"; "b"; "none"] /\ h !! 0 = Some ["a"; "b"].
Proof. by vm_compute. Qed.

(** ** Instances of the further properties *)

Lemma drifted_selection_drops_then_selects_witness :
  performed fulfils
    (audioInputsChanged true 7 (Some "a") (reports "b" "Mic A")
       [mic "a" "Mic A"])
  = [console_log stale_msg; chooseAudioInputDevice 7 None;
     selectAudioInputDevice "a"].
Proof.
  apply (drifted_selection_drops_then_selects 7 (Some "a") (reports "b" "Mic A")
           [mic "a" "Mic A"] (mic "a" "Mic A") fulfils);
    [reflexivity | discriminate | reflexivity].
Defined.

Lemma rejected_deselect_is_not_followed_witness :
  performed (fun _ => Rejected)
    (audioInputsChanged true 7 (Some "a") (reports "a" "Mic A")
       [mic "a" "Mic B"])
  = [console_log stale_msg; chooseAudioInputDevice 7 None].
Proof.
  apply (rejected_deselect_is_not_followed 7 (Some "a") (reports "a" "Mic A")
           [mic "a" "Mic B"] (mic "a" "Mic B") (fun _ => Rejected));
    reflexivity.
Defined.

Lemma observer_silent_iff_witness :
  performed fulfils
    (audioInputsChanged true 7 (Some "a") (reports "a" "Mic A")
       [mic "b" "Mic B"; mic "a" "Mic A"])
  = [].
Proof.
  apply (observer_silent_iff true 7 (Some "a") (reports "a" "Mic A")
           [mic "b" "Mic B"; mic "a" "Mic A"] fulfils).
  right. exists (mic "a" "Mic A"). repeat split; reflexivity.
Defined.

Lemma list_observer_only_when_live_witness :
  initialized
    (run (mount (reports "a" "Mic A"))
       [InitEffectRun (Some 7); FetchFulfilled 0 [mic "a" "Mic A"];
        InitEffectRun (Some 8); SelectionChanged None])
  = true.
Proof.
  apply (list_observer_only_when_live (reports "a" "Mic A")
           [InitEffectRun (Some 7); FetchFulfilled 0 [mic "a" "Mic A"];
            InitEffectRun (Some 8); SelectionChanged None]
           0
           {| isMounted := true; init_audioVideo := Some 7;
              awaiting := false; observing := true |});
    reflexivity.
Defined.

Lemma device_list_empty_until_initialized_witness :
  audioInputs
    (run (mount (reports "a" "Mic A"))
       [InitEffectRun (Some 7); ReconcileEffectRun (Some 7);
        DeviceChange 7 [mic "b" "Mic B"] (reports "a" "Mic A") fulfils;
        InitCleanup 0; FetchFulfilled 0 [mic "a" "Mic A"]])
  = [].
Proof.
  apply (device_list_empty_until_initialized (reports "a" "Mic A")
           [InitEffectRun (Some 7); ReconcileEffectRun (Some 7);
            DeviceChange 7 [mic "b" "Mic B"] (reports "a" "Mic A") fulfils;
            InitCleanup 0; FetchFulfilled 0 [mic "a" "Mic A"]]).
  reflexivity.
Defined.

Lemma list_observer_off_after_cleanup_witness :
  exists e,
    initEffects
      (run (step (run (mount (reports "a" "Mic A"))
                    [InitEffectRun (Some 7); FetchFulfilled 0 [mic "a" "Mic A"]])
              (InitCleanup 0))
         [FetchFulfilled 0 [mic "b" "Mic B"];
          DeviceChange 7 [mic "b" "Mic B"] (reports "a" "Mic A") fulfils]) !! 0
    = Some e
    /\ isMounted e = false /\ observing e = false.
Proof.
  apply (list_observer_off_after_cleanup (reports "a" "Mic A")
           [InitEffectRun (Some 7); FetchFulfilled 0 [mic "a" "Mic A"]]
           [FetchFulfilled 0 [mic "b" "Mic B"];
            DeviceChange 7 [mic "b" "Mic B"] (reports "a" "Mic A") fulfils]
           0).
  simpl. lia.
Defined.

Lemma no_retry_without_effect_run_witness :
  initialized
    (run (run starting [FetchRejected 0])
       [FetchFulfilled 0 [mic "a" "Mic A"];
        DeviceChange 7 [mic "b" "Mic B"] (reports "a" "Mic A") fulfils;
        InitEffectRun None; ReconcileEffectRun (Some 7)])
  = false.
Proof.
  apply (no_retry_without_effect_run (run starting [FetchRejected 0])
           [FetchFulfilled 0 [mic "a" "Mic A"];
            DeviceChange 7 [mic "b" "Mic B"] (reports "a" "Mic A") fulfils;
            InitEffectRun None; ReconcileEffectRun (Some 7)]);
    [reflexivity | repeat constructor | repeat constructor].
Defined.

Lemma flagged_read_returns_new_array_witness :
  exists result,
    Accessor.useAudioInputs (Some []) flagged (Some published) shelf
    = (inr result, <[Accessor.devices result := ["a"; "b"]]> shelf)
    /\ shelf !! Accessor.devices result = None
    /\ Accessor.devices result <> 0.
Proof.
  destruct (flagged_read_returns_new_array flagged published shelf []
              eq_refl) as (result & Hcall & Hnew & Hother).
  exists result. split; [exact Hcall|]. split; [exact Hnew|].
  apply Hother. exists ["a"; "b"]. reflexivity.
Defined.

Lemma successive_reads_agree_witness :
  exists first second h1 h2,
    Accessor.useAudioInputs (Some ["none"]) flagged (Some published) shelf
    = (inr first, h1)
    /\ Accessor.useAudioInputs (Some ["none"]) flagged (Some published) h1
       = (inr second, h2)
    /\ Accessor.elements h2 (Accessor.devices second) = ["a"; "b"; "none"].
Proof.
  destruct (successive_reads_agree (Some ["none"]) flagged flagged published
              shelf (ex_intro _ ["a"; "b"] eq_refl))
    as (first & second & h1 & h2 & E1 & E2 & He & _).
  exists first, second, h1, h2. split; [exact E1|]. split; [exact E2|].
  exact He.
Defined.
